(** * ts-storage-safe: a typed facade over the browser's localStorage

    Shallow embedding of [src/index.ts] (class [LocalStorage], the default
    instance [storage] and the factory [createStorage]) and the properties
    of its five operations [set], [get], [remove], [clear] and [has].

    The facade talks to one external collaborator, the global
    [localStorage] object of the host environment.  The embedding threads
    the state of that object through every operation: an operation is a
    function from the host store to a completion (normal or abrupt) and
    the host store it leaves behind. *)

From Stdlib Require Import String Ascii List Bool Arith Lia.
Import ListNotations.
Local Open Scope string_scope.

Set Implicit Arguments.

(** ** JavaScript values used by the facade *)

(** What a [throw] carries: an [Error] object, of the class [Error] itself
    or of one of its subclasses, or any other value.  The facade asks one
    question of a caught value:
    [error instanceof Error ? error.message : String(error)]. *)
Inductive thrown : Type :=
| ErrorObject (constructor_name : string) (message : string)
| NonError (text : string).

(** [new Error(message)] *)
Definition Error (message : string) : thrown :=
  ErrorObject "Error" message.

(** [error instanceof Error ? error.message : String(error)] *)
Definition describe (error : thrown) : string :=
  match error with
  | ErrorObject _ message => message
  | NonError text => text
  end.

(** A call either returns or throws. *)
Inductive completion (A : Type) : Type :=
| Normal (value : A)
| Throw (error : thrown).

Arguments Normal {A} value.
Arguments Throw {A} error.

(** Truthiness of a string: only the empty string is falsy. *)
Definition truthy (s : string) : bool :=
  match s with
  | EmptyString => false
  | String _ _ => true
  end.

(** [s.startsWith(searchString)] *)
Fixpoint startsWith (s searchString : string) {struct searchString} : bool :=
  match searchString with
  | EmptyString => true
  | String c rest =>
      match s with
      | EmptyString => false
      | String d s' => Ascii.eqb c d && startsWith s' rest
      end
  end.

(** [s.includes(c)] for a single character [c]. *)
Fixpoint includes (s : string) (c : ascii) : bool :=
  match s with
  | EmptyString => false
  | String d s' => Ascii.eqb d c || includes s' c
  end.

(** ** The host store *)

Module localStorage.

(** Modelled from the spec: the host key-value store (the browser's
    [localStorage]) is not part of the repository.  Its interface is the
    DOM [Storage] interface, with the contract the specification gives it:
    [getItem] returns the value or the absent sentinel, [setItem] may fail
    with a host-level failure, [removeItem] is a no-op on an absent key,
    [clear] removes every key, [length] counts the keys and [key] enumerates
    them by position. *)
Class Storage (H : Type) : Type := {
  getItem : H -> string -> option string;
  setItem : H -> string -> string -> completion H;
  removeItem : H -> string -> H;
  clear : H -> H;
  length : H -> nat;
  key : H -> nat -> option string
}.

(** Modelled from the spec: the contract of the host store.  The last law
    is what the downward scan of [clear] relies on: when the key at position
    [i] is removed, whatever is enumerated at [i] or above afterwards was at
    [i] or above before, so nothing below the scan moves up behind it. *)
Class Lawful (H : Type) `{Storage H} : Prop := {
  getItem_setItem_eq : forall h k v h',
    setItem h k v = Normal h' -> getItem h' k = Some v;
  getItem_setItem_ne : forall h k v h' k',
    setItem h k v = Normal h' -> k' <> k -> getItem h' k' = getItem h k';
  getItem_removeItem_eq : forall h k,
    getItem (removeItem h k) k = None;
  getItem_removeItem_ne : forall h k k',
    k' <> k -> getItem (removeItem h k) k' = getItem h k';
  getItem_clear : forall h k,
    getItem (clear h) k = None;
  length_clear : forall h,
    length (clear h) = 0;
  key_getItem : forall h k,
    getItem h k <> None <-> exists i, key h i = Some k;
  key_length : forall h i,
    length h <= i -> key h i = None;
  key_removeItem : forall h k i j k',
    key h i = Some k ->
    i <= j ->
    key (removeItem h k) j = Some k' ->
    exists j', i <= j' /\ key h j' = Some k'
}.

Arguments Lawful H {_}.

End localStorage.

(** ** Operations as state transformers over the host store *)

Section Facade.

Context {H : Type} `{HS : localStorage.Storage H}.

(** A computation runs against the host store and completes normally or
    abruptly; either way it leaves a host store behind. *)
Definition M (A : Type) : Type := H -> completion A * H.

Definition ret {A : Type} (a : A) : M A :=
  fun h => (Normal a, h).

Definition throw {A : Type} (error : thrown) : M A :=
  fun h => (Throw error, h).

Definition bind {A B : Type} (m : M A) (f : A -> M B) : M B :=
  fun h =>
    match m h with
    | (Normal a, h') => f a h'
    | (Throw error, h') => (Throw error, h')
    end.

(** [try { body } catch (error) { handler }]: the handler starts from the
    host store the body left behind. *)
Definition try_catch {A : Type} (body : M A) (handler : thrown -> M A) : M A :=
  fun h =>
    match body h with
    | (Normal a, h') => (Normal a, h')
    | (Throw error, h') => handler error h'
    end.

(** A call to a function that does not touch the host store. *)
Definition call {A : Type} (c : completion A) : M A :=
  fun h => (c, h).

Definition getItemM (k : string) : M (option string) :=
  fun h => (Normal (localStorage.getItem h k), h).

Definition setItemM (k v : string) : M unit :=
  fun h =>
    match localStorage.setItem h k v with
    | Normal h' => (Normal tt, h')
    | Throw error => (Throw error, h)
    end.

Definition removeItemM (k : string) : M unit :=
  fun h => (Normal tt, localStorage.removeItem h k).

Definition clearM : M unit :=
  fun h => (Normal tt, localStorage.clear h).

Definition lengthM : M nat :=
  fun h => (Normal (localStorage.length h), h).

Definition keyM (index : nat) : M (option string) :=
  fun h => (Normal (localStorage.key h index), h).

End Facade.

Declare Scope js_scope.
Delimit Scope js_scope with js.
Notation "x <- c1 ;; c2" := (bind c1 (fun x => c2))
  (at level 61, c1 at next level, right associativity) : js_scope.
Notation "c1 ;; c2" := (bind c1 (fun _ => c2))
  (at level 61, right associativity) : js_scope.
Local Open Scope js_scope.

(** ** [src/index.ts] *)

Section LocalStorage.

(** The values a caller stores; the type parameter [T] of [set] and [get]
    is a compile-time annotation only. *)
Context {V : Type}.

(** [StorageOptions['serializer']] *)
Record Serializer : Type := {
  stringify : V -> completion string;
  parse : string -> completion V
}.

(** [interface StorageOptions] *)
Record StorageOptions : Type := {
  prefix : option string;
  serializer : option Serializer
}.

(** The private fields of [class LocalStorage]. *)
Record LocalStorage : Type := {
  this_prefix : string;
  this_serializer : Serializer
}.

(** [JSON.stringify] and [JSON.parse] are primitives of the host. *)
Variable JSON : Serializer.

(** [a || b] on an optional string. *)
Definition or_string (a : option string) (b : string) : string :=
  match a with
  | Some s => if truthy s then s else b
  | None => b
  end.

(** [constructor(options: StorageOptions = {})] *)
Definition new_LocalStorage (options : StorageOptions) : LocalStorage :=
  {| this_prefix := or_string (prefix options) "";
     this_serializer :=
       match serializer options with
       | Some s => s
       | None => JSON
       end |}.

(** [private getKey(key)] *)
Definition getKey (this : LocalStorage) (key : string) : string :=
  if truthy (this_prefix this)
  then this_prefix this ++ ":" ++ key
  else key.

Context {H : Type} `{HS : localStorage.Storage H}.

(** [set<T>(key, value): void] *)
Definition set (this : LocalStorage) (key : string) (value : V) : M (H:=H) unit :=
  try_catch
    (serializedValue <- call (stringify (this_serializer this) value) ;;
     setItemM (getKey this key) serializedValue)
    (fun error => throw (Error ("Failed to set item: " ++ describe error))).

(** [get<T>(key, defaultValue?): T | undefined]; [None] is [undefined]. *)
Definition get (this : LocalStorage) (key : string) (defaultValue : option V)
  : M (H:=H) (option V) :=
  try_catch
    (value <- getItemM (getKey this key) ;;
     match value with
     | None => ret defaultValue
     | Some value =>
         v <- call (parse (this_serializer this) value) ;;
         ret (Some v)
     end)
    (fun error => throw (Error ("Failed to get item: " ++ describe error))).

(** [remove(key): void] *)
Definition remove (this : LocalStorage) (key : string) : M (H:=H) unit :=
  removeItemM (getKey this key).

(** The body of [for (let i = localStorage.length - 1; i >= 0; i--)],
    entered with [n = i + 1]. *)
Fixpoint clear_loop (this : LocalStorage) (n : nat) : M (H:=H) unit :=
  match n with
  | O => ret tt
  | S i =>
      key <- keyM i ;;
      match key with
      | Some key =>
          if truthy key && startsWith key (this_prefix this ++ ":")
          then removeItemM key
          else ret tt
      | None => ret tt
      end ;;
      clear_loop this i
  end.

(** [clear(clearAll: boolean = false): void]; [None] is an omitted argument. *)
Definition clear (this : LocalStorage) (clearAll : option bool) : M (H:=H) unit :=
  let clearAll := match clearAll with Some b => b | None => false end in
  if clearAll then clearM
  else if truthy (this_prefix this)
  then (n <- lengthM ;; clear_loop this n)
  else clearM.

(** [has(key): boolean] *)
Definition has (this : LocalStorage) (key : string) : M (H:=H) bool :=
  value <- getItemM (getKey this key) ;;
  ret (match value with Some _ => true | None => false end).

(** [export const storage = new LocalStorage()] *)
Definition storage : LocalStorage :=
  new_LocalStorage {| prefix := None; serializer := None |}.

(** [export function createStorage(options)] *)
Definition createStorage (options : StorageOptions) : LocalStorage :=
  new_LocalStorage options.

End LocalStorage.

Arguments Serializer V : clear implicits.
Arguments StorageOptions V : clear implicits.
Arguments LocalStorage V : clear implicits.

(** ** Calls as data *)

(** The calls a client can make on a facade. *)
Inductive operation (V : Type) : Type :=
| OpSet (key : string) (value : V)
| OpGet (key : string) (defaultValue : option V)
| OpRemove (key : string)
| OpHas (key : string)
| OpClear (clearAll : option bool).

Arguments OpSet {V} key value.
Arguments OpGet {V} key defaultValue.
Arguments OpRemove {V} key.
Arguments OpHas {V} key.
Arguments OpClear {V} clearAll.

(** The host store a call leaves behind. *)
Definition after {V H : Type} `{HS : localStorage.Storage H}
  (this : LocalStorage V) (op : operation V) (h : H) : H :=
  match op with
  | OpSet key value => snd (set this key value h)
  | OpGet key defaultValue => snd (get this key defaultValue h)
  | OpRemove key => snd (remove this key h)
  | OpHas key => snd (has this key h)
  | OpClear clearAll => snd (clear this clearAll h)
  end.

(** ** A concrete host store and a concrete codec *)

Module Mem.

(** Modelled from the spec: an in-memory host store that obeys the contract.
    Entries are kept in insertion order, which is the order [key] enumerates
    them in, and a write that would take the store over its quota fails. *)
Record t : Type := {
  entries : list (string * string);
  quota : nat
}.

Fixpoint lookup (k : string) (es : list (string * string)) : option string :=
  match es with
  | [] => None
  | (k', v) :: es' => if k' =? k then Some v else lookup k es'
  end.

Fixpoint put (k v : string) (es : list (string * string)) : list (string * string) :=
  match es with
  | [] => [(k, v)]
  | (k', v') :: es' =>
      if k' =? k then (k, v) :: es' else (k', v') :: put k v es'
  end.

Definition delete (k : string) (es : list (string * string)) : list (string * string) :=
  filter (fun e => negb (fst e =? k)) es.

Fixpoint size (es : list (string * string)) : nat :=
  match es with
  | [] => 0
  | (k, v) :: es' => String.length k + String.length v + size es'
  end.

Definition getItem (h : t) (k : string) : option string :=
  lookup k (entries h).

Definition setItem (h : t) (k v : string) : completion t :=
  let es := put k v (entries h) in
  if (size es <=? quota h)%nat
  then Normal {| entries := es; quota := quota h |}
  else Throw (ErrorObject "QuotaExceededError" "The quota has been exceeded.").

Definition removeItem (h : t) (k : string) : t :=
  {| entries := delete k (entries h); quota := quota h |}.

Definition clear (h : t) : t :=
  {| entries := []; quota := quota h |}.

Definition length (h : t) : nat :=
  List.length (entries h).

Definition key (h : t) (index : nat) : option string :=
  option_map fst (nth_error (entries h) index).

#[global] Instance storage : localStorage.Storage t := {|
  localStorage.getItem := getItem;
  localStorage.setItem := setItem;
  localStorage.removeItem := removeItem;
  localStorage.clear := clear;
  localStorage.length := length;
  localStorage.key := key
|}.

End Mem.

(** A fragment of the host's JSON codec, enough to run the facade on
    concrete values: [null] and the booleans round-trip, a [BigInt] cannot
    be serialized, and any other text is a syntax error. *)
Inductive json : Type :=
| JNull
| JBool (b : bool)
| JBigInt.

Definition json_stringify (value : json) : completion string :=
  match value with
  | JNull => Normal "null"
  | JBool true => Normal "true"
  | JBool false => Normal "false"
  | JBigInt => Throw (ErrorObject "TypeError" "Do not know how to serialize a BigInt")
  end.

Definition json_parse (text : string) : completion json :=
  if text =? "null" then Normal JNull
  else if text =? "true" then Normal (JBool true)
  else if text =? "false" then Normal (JBool false)
  else Throw (ErrorObject "SyntaxError" "Unexpected token in JSON").

Definition miniJSON : Serializer json :=
  {| stringify := json_stringify; parse := json_parse |}.

(** A custom reversible codec in the style of the test suite's: the JSON
    text is wrapped by a transform that [parse] undoes first. *)
Definition wrap (text : string) : string := "#" ++ text.

Definition unwrap (text : string) : completion string :=
  match text with
  | String "#" rest => Normal rest
  | _ => Throw (NonError "bad encoding")
  end.

Definition wrappedJSON : Serializer json :=
  {| stringify := fun value =>
       match json_stringify value with
       | Normal text => Normal (wrap text)
       | Throw error => Throw error
       end;
     parse := fun text =>
       match unwrap text with
       | Normal text => json_parse text
       | Throw error => Throw error
       end |}.

(** ** Concrete facades and host stores *)

Definition app : LocalStorage json :=
  createStorage miniJSON {| prefix := Some "app"; serializer := None |}.

Definition user : LocalStorage json :=
  createStorage miniJSON {| prefix := Some "user"; serializer := None |}.

Definition encoded : LocalStorage json :=
  createStorage miniJSON {| prefix := None; serializer := Some wrappedJSON |}.

(** A facade whose prefix extends [app]'s, and one with the empty prefix. *)
Definition app_cache : LocalStorage json :=
  createStorage miniJSON {| prefix := Some "app:cache"; serializer := None |}.

Definition bare : LocalStorage json :=
  createStorage miniJSON {| prefix := Some ""; serializer := None |}.

Definition empty_store : Mem.t :=
  {| Mem.entries := []; Mem.quota := 64 |}.

Definition two_tenants : Mem.t :=
  {| Mem.entries := [("app:key1", "true"); ("user:key1", "false")];
     Mem.quota := 64 |}.

Definition full_store : Mem.t :=
  {| Mem.entries := [("user:key1", "false")]; Mem.quota := 14 |}.

(** ** Properties of the concrete host store *)

Module MemFacts.
Import Mem.

Lemma lookup_put_eq k v es : lookup k (put k v es) = Some v.
Proof.
  induction es as [|[k' v'] es IH]; simpl.
  - now rewrite String.eqb_refl.
  - destruct (k' =? k) eqn:E; simpl.
    + now rewrite String.eqb_refl.
    + now rewrite E.
Qed.

Lemma lookup_put_ne k v es k' : k' <> k -> lookup k' (put k v es) = lookup k' es.
Proof.
  intros Hne. induction es as [|[k0 v0] es IH]; simpl.
  - apply String.eqb_neq in Hne. rewrite String.eqb_sym. now rewrite Hne.
  - destruct (k0 =? k) eqn:E; simpl.
    + apply String.eqb_eq in E. subst k0.
      assert ((k =? k') = false) as -> by (apply String.eqb_neq; congruence).
      reflexivity.
    + now rewrite IH.
Qed.

Lemma lookup_delete_eq k es : lookup k (delete k es) = None.
Proof.
  induction es as [|[k' v'] es IH]; simpl; [reflexivity|].
  destruct (k' =? k) eqn:E; simpl; [assumption|].
  now rewrite E.
Qed.

Lemma lookup_delete_ne k es k' : k' <> k -> lookup k' (delete k es) = lookup k' es.
Proof.
  intros Hne. induction es as [|[k0 v0] es IH]; simpl; [reflexivity|].
  destruct (k0 =? k) eqn:E; simpl.
  - apply String.eqb_eq in E. subst k0.
    assert ((k =? k') = false) as -> by (apply String.eqb_neq; congruence).
    assumption.
  - now rewrite IH.
Qed.

Lemma lookup_In k es : lookup k es <> None <-> In k (map fst es).
Proof.
  induction es as [|[k' v'] es IH]; simpl.
  - split; [congruence | tauto].
  - destruct (k' =? k) eqn:E.
    + apply String.eqb_eq in E. split; [auto | congruence].
    + apply String.eqb_neq in E. rewrite IH. tauto.
Qed.

Lemma nth_error_delete k es : forall j e,
  nth_error (delete k es) j = Some e ->
  exists j', j <= j' /\ nth_error es j' = Some e.
Proof.
  induction es as [|e0 es IH]; intros j e; simpl.
  - destruct j; discriminate.
  - destruct (negb (fst e0 =? k)).
    + destruct j as [|j]; simpl.
      * intros Hj. exists 0. split; [lia | exact Hj].
      * intros Hj. destruct (IH _ _ Hj) as [j' [Hle Hj']].
        exists (S j'). split; [lia | exact Hj'].
    + intros Hj. destruct (IH _ _ Hj) as [j' [Hle Hj']].
      exists (S j'). split; [lia | exact Hj'].
Qed.

#[global] Instance lawful : localStorage.Lawful t.
Proof.
  split; simpl.
  - intros h k v h'. unfold setItem, getItem.
    destruct (size _ <=? quota h)%nat; [|discriminate].
    intros [= <-]. simpl. apply lookup_put_eq.
  - intros h k v h' k'. unfold setItem, getItem.
    destruct (size _ <=? quota h)%nat; [|discriminate].
    intros [= <-] Hne. simpl. now apply lookup_put_ne.
  - intros h k. apply lookup_delete_eq.
  - intros h k k' Hne. now apply lookup_delete_ne.
  - reflexivity.
  - reflexivity.
  - intros h k. unfold getItem, key. rewrite lookup_In. split.
    + intros Hin. apply in_map_iff in Hin. destruct Hin as [e [<- Hin]].
      apply In_nth_error in Hin. destruct Hin as [i Hi].
      exists i. now rewrite Hi.
    + intros [i Hi]. destruct (nth_error (entries h) i) as [e|] eqn:E; [|discriminate].
      injection Hi as <-. apply in_map. eapply nth_error_In; eassumption.
  - intros h i Hle. unfold key, length in *.
    assert (nth_error (entries h) i = None) as -> by now apply nth_error_None.
    reflexivity.
  - intros h k i j k' _ Hij. unfold key, removeItem. simpl.
    destruct (nth_error (delete k (entries h)) j) as [e|] eqn:E; [|discriminate].
    intros [= <-]. destruct (nth_error_delete _ _ _ E) as [j' [Hle Hj']].
    exists j'. split; [lia | now rewrite Hj'].
Qed.

End MemFacts.

(** ** Strings and namespaced keys *)

Unset Implicit Arguments.

Lemma truthy_nonempty (s : string) : truthy s = true <-> s <> "".
Proof. destruct s; simpl; split; congruence. Qed.

Lemma startsWith_truthy (s searchString : string) :
  startsWith s searchString = true -> truthy searchString = true -> truthy s = true.
Proof. destruct searchString, s; simpl; congruence. Qed.

Lemma startsWith_append (a b c : string) :
  startsWith (a ++ b ++ c) (a ++ b) = true.
Proof.
  induction a as [|x a IH]; simpl.
  - induction b as [|y b IHb]; simpl; [reflexivity|].
    now rewrite Ascii.eqb_refl.
  - now rewrite Ascii.eqb_refl.
Qed.

Lemma length_append (a b : string) :
  String.length (a ++ b) = String.length a + String.length b.
Proof. induction a; simpl; congruence. Qed.

Lemma append_cancel_r (a b c : string) : a ++ c = b ++ c -> a = b.
Proof.
  revert b. induction a as [|x a IH]; intros [|y b] Heq; simpl in Heq.
  - reflexivity.
  - apply (f_equal String.length) in Heq. simpl in Heq.
    rewrite length_append in Heq. lia.
  - apply (f_equal String.length) in Heq. simpl in Heq.
    rewrite length_append in Heq. lia.
  - injection Heq as -> Heq. f_equal. now apply IH.
Qed.

Section Keys.

Context {V : Type}.
Implicit Types this : LocalStorage V.

Lemma getKey_prefixed this key :
  this_prefix this <> "" ->
  getKey this key = this_prefix this ++ ":" ++ key.
Proof.
  intros Hp. unfold getKey. apply truthy_nonempty in Hp. now rewrite Hp.
Qed.

Lemma getKey_startsWith this key :
  this_prefix this <> "" ->
  startsWith (getKey this key) (this_prefix this ++ ":") = true.
Proof.
  intros Hp. rewrite getKey_prefixed by assumption. apply startsWith_append.
Qed.

Lemma getKey_distinct this1 this2 key :
  this_prefix this1 <> "" -> this_prefix this2 <> "" ->
  this_prefix this1 <> this_prefix this2 ->
  getKey this1 key <> getKey this2 key.
Proof.
  intros H1 H2 Hne Heq. rewrite !getKey_prefixed in Heq by assumption.
  apply Hne. eapply append_cancel_r. exact Heq.
Qed.

(** The loop's test [key && key.startsWith(prefix + ':')] is the prefix
    test alone: the searched text is never empty. *)
Lemma loop_test this key :
  truthy key && startsWith key (this_prefix this ++ ":")
  = startsWith key (this_prefix this ++ ":").
Proof.
  destruct (startsWith key (this_prefix this ++ ":")) eqn:E.
  - erewrite startsWith_truthy; [reflexivity | exact E |].
    destruct (this_prefix this); reflexivity.
  - apply andb_false_r.
Qed.

End Keys.

(** ** The downward scan of [clear] *)

Section Scan.

Context {V : Type} {H : Type} `{HS : localStorage.Storage H}
        {HL : localStorage.Lawful H}.
Implicit Types (this : LocalStorage V) (h : H).

(** Entering the loop at [n] with every position from [n] upward already
    free of namespaced keys, the scan terminates normally, leaves every key
    outside the namespace as it was and no namespaced key at any position. *)
Lemma clear_loop_spec this n : forall h,
  (forall j k, n <= j -> localStorage.key h j = Some k ->
     startsWith k (this_prefix this ++ ":") = false) ->
  exists h',
    clear_loop this n h = (Normal tt, h') /\
    (forall k, startsWith k (this_prefix this ++ ":") = false ->
       localStorage.getItem h' k = localStorage.getItem h k) /\
    (forall j k, localStorage.key h' j = Some k ->
       startsWith k (this_prefix this ++ ":") = false).
Proof.
  induction n as [|i IH]; intros h Hdone.
  - exists h. simpl. unfold ret. repeat split.
    intros j k. apply Hdone. lia.
  - simpl. unfold bind at 1. unfold keyM.
    destruct (localStorage.key h i) as [k|] eqn:Hk.
    + rewrite loop_test.
      destruct (startsWith k (this_prefix this ++ ":")) eqn:Hm.
      * unfold bind, removeItemM.
        destruct (IH (localStorage.removeItem h k)) as [h' [Hrun [Hframe Hnone]]].
        { intros j k' Hj Hk'.
          destruct (localStorage.key_removeItem h Hk Hj Hk') as [j' [Hle Hj']].
          destruct (Nat.eq_dec j' i) as [->|Hne].
          - rewrite Hk in Hj'. injection Hj' as <-.
            exfalso.
            assert (localStorage.getItem (localStorage.removeItem h k) k <> None) as Habs
              by (apply localStorage.key_getItem; eauto).
            apply Habs. apply localStorage.getItem_removeItem_eq.
          - apply (Hdone j'); [lia | assumption]. }
        exists h'. repeat split; try assumption.
        intros k' Hk'. rewrite Hframe by assumption.
        apply localStorage.getItem_removeItem_ne. congruence.
      * unfold bind, ret.
        destruct (IH h) as [h' [Hrun [Hframe Hnone]]].
        { intros j k' Hj Hk'.
          destruct (Nat.eq_dec j i) as [->|Hne].
          - congruence.
          - apply (Hdone j); [lia | assumption]. }
        exists h'. repeat split; assumption.
    + unfold bind, ret.
      destruct (IH h) as [h' [Hrun [Hframe Hnone]]].
      { intros j k' Hj Hk'.
        destruct (Nat.eq_dec j i) as [->|Hne].
        - congruence.
        - apply (Hdone j); [lia | assumption]. }
      exists h'. repeat split; assumption.
Qed.

(** The whole scan, entered as [clear] enters it: from the store's length. *)
Lemma clear_loop_from_length this h :
  exists h',
    clear_loop this (localStorage.length h) h = (Normal tt, h') /\
    forall k,
      localStorage.getItem h' k =
      if startsWith k (this_prefix this ++ ":") then None
      else localStorage.getItem h k.
Proof.
  destruct (clear_loop_spec this (localStorage.length h) h) as [h' [Hrun [Hframe Hnone]]].
  { intros j k Hj Hk. rewrite localStorage.key_length in Hk by assumption.
    discriminate. }
  exists h'. split; [exact Hrun|].
  intros k. destruct (startsWith k (this_prefix this ++ ":")) eqn:Hm.
  - destruct (localStorage.getItem h' k) as [v|] eqn:Hv; [|reflexivity].
    assert (localStorage.getItem h' k <> None) as Hin by congruence.
    apply localStorage.key_getItem in Hin. destruct Hin as [i Hi].
    apply Hnone in Hi. congruence.
  - now apply Hframe.
Qed.

End Scan.

(** ** The operations, one at a time *)

Section Operations.

Context {V : Type} {H : Type} `{HS : localStorage.Storage H}.
Implicit Types (this : LocalStorage V) (h : H).

(** What [set] does, by cases on the two calls inside its [try]. *)
Lemma set_run this key value h :
  set this key value h =
  match stringify (this_serializer this) value with
  | Throw error => (Throw (Error ("Failed to set item: " ++ describe error)), h)
  | Normal text =>
      match localStorage.setItem h (getKey this key) text with
      | Throw error => (Throw (Error ("Failed to set item: " ++ describe error)), h)
      | Normal h' => (Normal tt, h')
      end
  end.
Proof.
  unfold set, try_catch, bind, call, setItemM, throw.
  destruct (stringify (this_serializer this) value) as [text|error]; [|reflexivity].
  destruct (localStorage.setItem h (getKey this key) text); reflexivity.
Qed.

(** What [get] does, by cases on the stored text. *)
Lemma get_run this key defaultValue h :
  get this key defaultValue h =
  match localStorage.getItem h (getKey this key) with
  | None => (Normal defaultValue, h)
  | Some text =>
      match parse (this_serializer this) text with
      | Normal v => (Normal (Some v), h)
      | Throw error => (Throw (Error ("Failed to get item: " ++ describe error)), h)
      end
  end.
Proof.
  unfold get, try_catch, bind, call, getItemM, ret, throw.
  destruct (localStorage.getItem h (getKey this key)) as [text|]; [|reflexivity].
  destruct (parse (this_serializer this) text); reflexivity.
Qed.

Lemma has_run this key h :
  has this key h =
  (Normal (match localStorage.getItem h (getKey this key) with
           | Some _ => true
           | None => false
           end), h).
Proof. reflexivity. Qed.

Lemma set_returns this key value h h' :
  set this key value h = (Normal tt, h') ->
  exists text,
    stringify (this_serializer this) value = Normal text /\
    localStorage.setItem h (getKey this key) text = Normal h'.
Proof.
  rewrite set_run.
  destruct (stringify (this_serializer this) value) as [text|error]; [|discriminate].
  destruct (localStorage.setItem h (getKey this key) text) as [h1|error] eqn:Hw;
    [|discriminate].
  intros [= <-]. now exists text.
Qed.

End Operations.

(** ** Round trip *)

Section RoundTrip.

Context {V : Type} {H : Type} `{HS : localStorage.Storage H}
        {HL : localStorage.Lawful H}.
Implicit Types (this : LocalStorage V) (h : H).

(** C1.  Round trip: when the configured serializer takes [value] to a text
    that its [parse] takes back to [value], a [set(key, value)] that
    completes, followed by [get(key)] on the same facade, returns [value],
    whatever the key, the default argument and the host store. *)
Theorem set_then_get this key value text defaultValue h h' :
  stringify (this_serializer this) value = Normal text ->
  parse (this_serializer this) text = Normal value ->
  set this key value h = (Normal tt, h') ->
  (set this key value ;; get this key defaultValue) h = (Normal (Some value), h').
Proof.
  intros Hs Hp Hset. unfold bind at 1. rewrite Hset.
  apply set_returns in Hset. destruct Hset as [text' [Hs' Hw]].
  rewrite Hs in Hs'. injection Hs' as <-.
  rewrite get_run.
  rewrite (localStorage.getItem_setItem_eq _ _ _ Hw).
  now rewrite Hp.
Qed.

End RoundTrip.

(** The default codec, under a prefix. *)
Lemma set_then_get_witness :
  (set app "user" (JBool true) ;; get app "user" None) empty_store
  = (Normal (Some (JBool true)),
     {| Mem.entries := [("app:user", "true")]; Mem.quota := 64 |}).
Proof.
  apply (set_then_get app "user" (JBool true) "true" None empty_store); reflexivity.
Defined.

(** A custom reversible codec: the round trip holds and the stored text is
    not the plain JSON text. *)
Example custom_serializer_round_trip :
  (set encoded "encoded" JNull ;; get encoded "encoded" None) empty_store
  = (Normal (Some JNull),
     {| Mem.entries := [("encoded", "#null")]; Mem.quota := 64 |}).
Proof. reflexivity. Qed.

(** ** Clearing *)

Section Clearing.

Context {V : Type} {H : Type} `{HS : localStorage.Storage H}
        {HL : localStorage.Lawful H}.
Implicit Types (this : LocalStorage V) (h : H).

(** C2.  Scoped clear: on a facade with a non-empty prefix [P],
    [clear(false)] and [clear()] complete normally and remove from the host
    store exactly the keys that begin with [P:]: afterwards every such key is
    absent and every other key has the value it had, whatever the host store
    held. *)
Theorem clear_scoped this clearAll h :
  this_prefix this <> "" ->
  clearAll = None \/ clearAll = Some false ->
  exists h',
    clear this clearAll h = (Normal tt, h') /\
    forall k,
      localStorage.getItem h' k =
      if startsWith k (this_prefix this ++ ":") then None
      else localStorage.getItem h k.
Proof.
  intros Hp Harg. apply truthy_nonempty in Hp.
  assert (clear this clearAll h = clear_loop this (localStorage.length h) h) as ->.
  { unfold clear. destruct Harg as [-> | ->]; rewrite Hp; reflexivity. }
  apply clear_loop_from_length.
Qed.

(** C3.  Full wipe: with [clearAll = true], or on a facade configured with
    no prefix or with the empty prefix, [clear] is the host's [clear]: no key
    of any namespace is left and the store's length is zero. *)
Theorem clear_everything (JSON : Serializer V) options clearAll h :
  clearAll = Some true \/ prefix options = None \/ prefix options = Some "" ->
  clear (new_LocalStorage JSON options) clearAll h = (Normal tt, localStorage.clear h) /\
  (forall k, localStorage.getItem (localStorage.clear h) k = None) /\
  (forall i, localStorage.key (localStorage.clear h) i = None) /\
  localStorage.length (localStorage.clear h) = 0.
Proof.
  intros Hcase. split; [|split; [|split]].
  - unfold clear, clearM. destruct Hcase as [-> | [Hp | Hp]]; [reflexivity | |];
      simpl; rewrite Hp; simpl; destruct clearAll as [[|]|]; reflexivity.
  - apply localStorage.getItem_clear.
  - intros i. apply localStorage.key_length.
    rewrite localStorage.length_clear. lia.
  - apply localStorage.length_clear.
Qed.

End Clearing.

Lemma clear_scoped_witness :
  exists h',
    clear app None two_tenants = (Normal tt, h') /\
    forall k,
      localStorage.getItem h' k =
      if startsWith k (this_prefix app ++ ":") then None
      else localStorage.getItem two_tenants k.
Proof.
  apply (clear_scoped app None two_tenants); [discriminate | left; reflexivity].
Defined.

(** The scenario of the test suite: two tenants, one scoped clear. *)
Example clear_only_prefixed_items :
  let h := snd ((set app "key1" (JBool true) ;; set user "key1" (JBool false) ;;
                 clear app None) empty_store) in
  fst (has app "key1" h) = Normal false /\ fst (has user "key1" h) = Normal true.
Proof. split; reflexivity. Qed.

Lemma clear_everything_witness :
  clear (new_LocalStorage miniJSON {| prefix := None; serializer := None |}) None two_tenants
  = (Normal tt, localStorage.clear two_tenants) /\
  (forall k, localStorage.getItem (localStorage.clear two_tenants) k = None) /\
  (forall i, localStorage.key (localStorage.clear two_tenants) i = None) /\
  localStorage.length (localStorage.clear two_tenants) = 0.
Proof.
  apply (clear_everything miniJSON {| prefix := None; serializer := None |} None two_tenants).
  right; left; reflexivity.
Defined.

(** ** The namespace of a prefixed facade *)

Section Namespace.

Context {V : Type} {H : Type} `{HS : localStorage.Storage H}
        {HL : localStorage.Lawful H}.
Implicit Types (this : LocalStorage V) (h : H).

(** C4, as the code has it.  On a facade with a non-empty prefix [P], every
    call other than [clear(true)] leaves each host-store key that does not
    begin with [P:] exactly as it was; the key a call addresses is
    [P:<key>]; and what [get] and [has] return is decided by the entry under
    that key alone. *)
Theorem namespace_confined this :
  this_prefix this <> "" ->
  (forall op h k,
     op <> OpClear (Some true) ->
     startsWith k (this_prefix this ++ ":") = false ->
     localStorage.getItem (after this op h) k = localStorage.getItem h k) /\
  (forall key, getKey this key = this_prefix this ++ ":" ++ key) /\
  (forall key defaultValue h1 h2,
     localStorage.getItem h1 (this_prefix this ++ ":" ++ key)
     = localStorage.getItem h2 (this_prefix this ++ ":" ++ key) ->
     fst (get this key defaultValue h1) = fst (get this key defaultValue h2) /\
     fst (has this key h1) = fst (has this key h2)).
Proof.
  intros Hp. split; [|split].
  - intros op h k Hop Hk.
    assert (forall key, k <> getKey this key) as Hout.
    { intros key ->. rewrite getKey_startsWith in Hk by assumption. discriminate. }
    destruct op as [key value | key defaultValue | key | key | clearAll]; simpl.
    + rewrite set_run.
      destruct (stringify (this_serializer this) value) as [text|error]; [|reflexivity].
      destruct (localStorage.setItem h (getKey this key) text) as [h'|error] eqn:Hw;
        [|reflexivity].
      simpl. eapply localStorage.getItem_setItem_ne; [exact Hw | apply Hout].
    + rewrite get_run.
      destruct (localStorage.getItem h (getKey this key)) as [text|]; [|reflexivity].
      destruct (parse (this_serializer this) text); reflexivity.
    + apply localStorage.getItem_removeItem_ne, Hout.
    + reflexivity.
    + assert (clear this clearAll h = clear_loop this (localStorage.length h) h) as ->.
      { unfold clear. apply truthy_nonempty in Hp. rewrite Hp.
        destruct clearAll as [[|]|]; [congruence | reflexivity | reflexivity]. }
      destruct (clear_loop_from_length this h) as [h' [Hrun Hh']].
      rewrite Hrun. simpl. rewrite Hh'. now rewrite Hk.
  - intros key. now apply getKey_prefixed.
  - intros key defaultValue h1 h2 Heq.
    rewrite !get_run, !has_run, !getKey_prefixed by assumption.
    rewrite Heq. split; [|reflexivity].
    destruct (localStorage.getItem h2 (this_prefix this ++ ":" ++ key)) as [text|];
      [|reflexivity].
    destruct (parse (this_serializer this) text); reflexivity.
Qed.

End Namespace.

Lemma namespace_confined_witness :
  (forall op h k,
     op <> OpClear (Some true) ->
     startsWith k (this_prefix app ++ ":") = false ->
     localStorage.getItem (after app op h) k = localStorage.getItem (H:=Mem.t) h k) /\
  (forall key, getKey app key = this_prefix app ++ ":" ++ key) /\
  (forall key defaultValue (h1 h2 : Mem.t),
     localStorage.getItem h1 (this_prefix app ++ ":" ++ key)
     = localStorage.getItem h2 (this_prefix app ++ ":" ++ key) ->
     fst (get app key defaultValue h1) = fst (get app key defaultValue h2) /\
     fst (has app key h1) = fst (has app key h2)).
Proof.
  apply (namespace_confined app). discriminate.
Defined.

(** C4 as stated fails at [clear(true)]: called on the facade with prefix
    [app], it deletes the key [user:key1], which is outside [app:]. *)
Lemma clear_all_leaves_the_namespace :
  this_prefix app <> "" /\
  ~ (startsWith "user:key1" (this_prefix app ++ ":") = false ->
     localStorage.getItem (after app (OpClear (Some true)) two_tenants) "user:key1"
     = localStorage.getItem two_tenants "user:key1").
Proof.
  split; [discriminate|].
  intros Hclaim. specialize (Hclaim eq_refl). discriminate Hclaim.
Qed.

(** ** Reading *)

Section Reading.

Context {V : Type} {H : Type} `{HS : localStorage.Storage H}.
Implicit Types (this : LocalStorage V) (h : H).

(** C5.  Default fallback: when the namespaced key is absent from the host
    store, [get(key, d)] returns exactly [d] and [get(key)] returns
    [undefined]; the result is the same under any [parse] function, so
    [parse] is not consulted. *)
Theorem get_absent this key defaultValue h :
  localStorage.getItem h (getKey this key) = None ->
  get this key defaultValue h = (Normal defaultValue, h) /\
  get this key None h = (Normal None, h) /\
  forall parse',
    get {| this_prefix := this_prefix this;
           this_serializer :=
             {| stringify := stringify (this_serializer this); parse := parse' |} |}
        key defaultValue h
    = (Normal defaultValue, h).
Proof.
  intros Habsent. repeat split.
  - rewrite get_run. now rewrite Habsent.
  - rewrite get_run. now rewrite Habsent.
  - intros parse'. rewrite get_run.
    change (getKey _ key) with (getKey this key). now rewrite Habsent.
Qed.

(** C10.  [get] and [has] leave the host store as they found it: whether
    the key is present or absent, and for [get] also when decoding the stored
    text fails and the error is raised. *)
Theorem get_has_read_only this key defaultValue h :
  snd (get this key defaultValue h) = h /\
  snd (has this key h) = h /\
  (forall text cause,
     localStorage.getItem h (getKey this key) = Some text ->
     parse (this_serializer this) text = Throw cause ->
     get this key defaultValue h
     = (Throw (Error ("Failed to get item: " ++ describe cause)), h)).
Proof.
  repeat split.
  - rewrite get_run.
    destruct (localStorage.getItem h (getKey this key)) as [text|]; [|reflexivity].
    destruct (parse (this_serializer this) text); reflexivity.
  - intros text cause Hpresent Hfail. rewrite get_run, Hpresent, Hfail. reflexivity.
Qed.

End Reading.

Lemma get_absent_witness :
  get app "nonexistent" (Some (JBool true)) two_tenants
  = (Normal (Some (JBool true)), two_tenants) /\
  get app "nonexistent" None two_tenants = (Normal None, two_tenants) /\
  forall parse',
    get {| this_prefix := this_prefix app;
           this_serializer :=
             {| stringify := stringify (this_serializer app); parse := parse' |} |}
        "nonexistent" (Some (JBool true)) two_tenants
    = (Normal (Some (JBool true)), two_tenants).
Proof.
  apply (get_absent app "nonexistent" (Some (JBool true)) two_tenants). reflexivity.
Defined.

(** A stored text that does not decode: [get] raises and the store stays. *)
Example get_undecodable :
  let h := {| Mem.entries := [("app:key1", "{")]; Mem.quota := 64 |} in
  get app "key1" None h = (Throw (Error "Failed to get item: Unexpected token in JSON"), h)
  /\ has app "key1" h = (Normal true, h).
Proof. split; reflexivity. Qed.

(** ** Existence and isolation *)

Section Existence.

Context {V : Type} {H : Type} `{HS : localStorage.Storage H}
        {HL : localStorage.Lawful H}.
Implicit Types (this : LocalStorage V) (h : H).


(** A write under one prefix, completed or not, leaves the answer of [has]
    under another prefix as it was. *)
Lemma set_other_prefix_has this1 this2 key value h :
  this_prefix this1 <> "" ->
  this_prefix this2 <> "" ->
  this_prefix this1 <> this_prefix this2 ->
  fst (has this2 key (snd (set this1 key value h))) = fst (has this2 key h).
Proof.
  intros H1 H2 Hne.
  pose proof (getKey_distinct this1 this2 key H1 H2 Hne) as Hkeys.
  rewrite set_run, !has_run.
  destruct (stringify (this_serializer this1) value) as [text|error]; [|reflexivity].
  destruct (localStorage.setItem h (getKey this1 key) text) as [h'|error] eqn:Hw;
    [|reflexivity].
  simpl. erewrite localStorage.getItem_setItem_ne; [reflexivity | exact Hw | congruence].
Qed.

(** C7.  Prefix isolation: for two facades with distinct non-empty prefixes
    [p1] and [p2], whenever the serializer returns a text and the host
    accepts the write, [set(key, value)] on the first facade completes,
    [has(key)] on the second answers afterwards what it answered before, and
    the host store holds, and enumerates, the key [p1:key]. *)
Theorem prefix_isolation this1 this2 key value text h h' :
  this_prefix this1 <> "" ->
  this_prefix this2 <> "" ->
  this_prefix this1 <> this_prefix this2 ->
  stringify (this_serializer this1) value = Normal text ->
  localStorage.setItem h (this_prefix this1 ++ ":" ++ key) text = Normal h' ->
  (set this1 key value ;; has this2 key) h = (fst (has this2 key h), h') /\
  localStorage.getItem h' (this_prefix this1 ++ ":" ++ key) = Some text /\
  exists i, localStorage.key h' i = Some (this_prefix this1 ++ ":" ++ key).
Proof.
  intros H1 H2 Hne Hs Hw.
  pose proof (set_other_prefix_has this1 this2 key value h H1 H2 Hne) as Hother.
  rewrite <- (getKey_prefixed this1 key H1) in *.
  assert (set this1 key value h = (Normal tt, h')) as Hset
    by (rewrite set_run, Hs, Hw; reflexivity).
  rewrite Hset in Hother. simpl in Hother.
  pose proof (localStorage.getItem_setItem_eq _ _ _ Hw) as Hstored.
  split; [|split].
  - unfold bind. rewrite Hset. rewrite has_run in *. simpl in Hother.
    now rewrite Hother.
  - exact Hstored.
  - apply localStorage.key_getItem. rewrite Hstored. discriminate.
Qed.

End Existence.


Lemma prefix_isolation_witness :
  (set app "key" JNull ;; has user "key") empty_store
  = (Normal false, {| Mem.entries := [("app:key", "null")]; Mem.quota := 64 |}) /\
  localStorage.getItem
    {| Mem.entries := [("app:key", "null")]; Mem.quota := 64 |} "app:key"
  = Some "null" /\
  exists i,
    localStorage.key {| Mem.entries := [("app:key", "null")]; Mem.quota := 64 |} i
    = Some "app:key".
Proof.
  refine (prefix_isolation app user "key" JNull "null" empty_store
            {| Mem.entries := [("app:key", "null")]; Mem.quota := 64 |}
            _ _ _ eq_refl eq_refl); discriminate.
Defined.

(** The raw host store after a prefixed write. *)
Example works_with_prefixes :
  localStorage.getItem (snd (set app "key" (JBool true) empty_store)) "app:key"
  = Some "true".
Proof. reflexivity. Qed.

(** ** Failing writes *)

Section Writing.

Context {V : Type} {H : Type} `{HS : localStorage.Storage H}.
Implicit Types (this : LocalStorage V) (h : H).

(** C8, as the code has it.  [set(key, value)] raises exactly when the
    serializer's [stringify] throws or the host store's write throws, and
    what it raises is a plain [Error], built by [new Error], whose message is
    ["Failed to set item: "] followed by the description of that underlying
    failure: its message when it is an [Error], its text otherwise. *)
Theorem set_raises_iff this key value h error :
  fst (set this key value h) = Throw error <->
  exists cause,
    (stringify (this_serializer this) value = Throw cause \/
     exists text,
       stringify (this_serializer this) value = Normal text /\
       localStorage.setItem h (getKey this key) text = Throw cause) /\
    error = Error ("Failed to set item: " ++ describe cause).
Proof.
  rewrite set_run. split.
  - destruct (stringify (this_serializer this) value) as [text|cause] eqn:Hs.
    + destruct (localStorage.setItem h (getKey this key) text) as [h'|cause] eqn:Hw;
        simpl; [discriminate|].
      intros [= <-]. exists cause. split; [right; now exists text | reflexivity].
    + simpl. intros [= <-]. exists cause. split; [now left | reflexivity].
  - intros [cause [[Hs | [text [Hs Hw]]] ->]]; rewrite Hs; [reflexivity|].
    now rewrite Hw.
Qed.

(** C9.  A [set] whose [stringify] throws raises the wrapped error and
    leaves the host store exactly as it was. *)
Theorem set_stringify_failure_atomic this key value h cause :
  stringify (this_serializer this) value = Throw cause ->
  set this key value h
  = (Throw (Error ("Failed to set item: " ++ describe cause)), h).
Proof.
  intros Hs. rewrite set_run. now rewrite Hs.
Qed.

End Writing.

Lemma set_stringify_failure_atomic_witness :
  set app "key1" JBigInt two_tenants
  = (Throw (Error ("Failed to set item: " ++ describe (ErrorObject "TypeError" "Do not know how to serialize a BigInt"))),
     two_tenants).
Proof.
  apply (set_stringify_failure_atomic app "key1" JBigInt two_tenants). reflexivity.
Defined.

(** C8 as stated fails on the class of the error: the module defines no
    [StorageWriteError], and a [set] whose [stringify] throws raises an
    object constructed by [Error]. *)
Lemma set_raises_no_StorageWriteError :
  ~ exists message,
      fst (set app "key1" JBigInt two_tenants)
      = Throw (ErrorObject "StorageWriteError" message).
Proof.
  intros [message Hraised]. vm_compute in Hraised. discriminate Hraised.
Qed.

(** The host refuses a write that would exceed the quota: [set] raises the
    wrapped error and the store stays as it was. *)
Example set_quota_exceeded :
  set app "key1" (JBool true) full_store
  = (Throw (Error "Failed to set item: The quota has been exceeded."), full_store).
Proof. reflexivity. Qed.

(** ** More on namespaced keys *)

Lemma append_cancel_l (a b c : string) : a ++ b = a ++ c -> b = c.
Proof.
  induction a as [|x a IH]; simpl; intros Heq; [exact Heq|].
  injection Heq as Heq. now apply IH.
Qed.

Lemma append_assoc (a b c : string) : (a ++ b) ++ c = a ++ b ++ c.
Proof. induction a as [|x a IH]; simpl; [reflexivity | now rewrite IH]. Qed.

Lemma truthy_append_colon (a b : string) : truthy (a ++ ":" ++ b) = true.
Proof. destruct a; reflexivity. Qed.

(** With no colon in either prefix, a key of one namespace begins with the
    other namespace's marker only when the prefixes are the same. *)
Lemma startsWith_colon_free (p1 : string) : forall p2 k,
  includes p1 ":" = false ->
  includes p2 ":" = false ->
  startsWith (p2 ++ ":" ++ k) (p1 ++ ":") = true ->
  p1 = p2.
Proof.
  induction p1 as [|c p1 IH]; intros [|d p2] k H1 H2 Hs.
  - reflexivity.
  - exfalso. cbn [append startsWith includes] in Hs, H2.
    apply andb_prop in Hs. destruct Hs as [Hc _].
    apply orb_false_elim in H2. destruct H2 as [Hd _].
    apply Ascii.eqb_eq in Hc. subst d.
    rewrite Ascii.eqb_refl in Hd. discriminate.
  - exfalso. cbn [append startsWith includes] in Hs, H1.
    apply andb_prop in Hs. destruct Hs as [Hc _].
    apply orb_false_elim in H1. destruct H1 as [Hd _].
    apply Ascii.eqb_eq in Hc. subst c.
    rewrite Ascii.eqb_refl in Hd. discriminate.
  - cbn [append startsWith includes] in Hs, H1, H2.
    apply andb_prop in Hs. destruct Hs as [Hc Hs].
    apply Ascii.eqb_eq in Hc. subst d.
    apply orb_false_elim in H1. apply orb_false_elim in H2.
    f_equal. apply (IH p2 k); tauto.
Qed.

Section MoreKeys.

Context {V : Type}.
Implicit Types this : LocalStorage V.

Lemma getKey_inj this key1 key2 :
  getKey this key1 = getKey this key2 -> key1 = key2.
Proof.
  unfold getKey. destruct (truthy (this_prefix this)); [|auto].
  intros Heq. apply append_cancel_l in Heq. now injection Heq.
Qed.

End MoreKeys.

(** ** One facade, several keys *)

Section SeveralKeys.

Context {V : Type} {H : Type} `{HS : localStorage.Storage H}
        {HL : localStorage.Lawful H}.
Implicit Types (this : LocalStorage V) (h : H).

(** X1.  [set(key, value)] and [remove(key)] change at most one entry of the
    host store, the one under the namespaced key: every other host key keeps
    its value, on a prefixed and on an unprefixed facade alike, and also when
    [set] raises. *)
Theorem set_remove_frame this key value h k :
  k <> getKey this key ->
  localStorage.getItem (snd (set this key value h)) k = localStorage.getItem h k /\
  localStorage.getItem (snd (remove this key h)) k = localStorage.getItem h k.
Proof.
  intros Hk. split.
  - rewrite set_run.
    destruct (stringify (this_serializer this) value) as [text|error]; [|reflexivity].
    destruct (localStorage.setItem h (getKey this key) text) as [h'|error] eqn:Hw;
      [|reflexivity].
    simpl. eapply localStorage.getItem_setItem_ne; [exact Hw | exact Hk].
  - unfold remove, removeItemM. simpl.
    now apply localStorage.getItem_removeItem_ne.
Qed.

(** X2.  Two different keys of one facade never interfere: writing or
    removing [key1] leaves what [get(key2)] and [has(key2)] answer as it
    was. *)
Theorem distinct_keys_independent this key1 key2 value defaultValue h :
  key1 <> key2 ->
  fst (get this key2 defaultValue (snd (set this key1 value h)))
  = fst (get this key2 defaultValue h) /\
  fst (has this key2 (snd (set this key1 value h))) = fst (has this key2 h) /\
  fst (get this key2 defaultValue (snd (remove this key1 h)))
  = fst (get this key2 defaultValue h) /\
  fst (has this key2 (snd (remove this key1 h))) = fst (has this key2 h).
Proof.
  intros Hne.
  assert (getKey this key2 <> getKey this key1) as Hk
    by (intros Heq; apply Hne; symmetry; exact (getKey_inj this _ _ Heq)).
  assert (localStorage.getItem (snd (set this key1 value h)) (getKey this key2)
          = localStorage.getItem h (getKey this key2)) as Hset.
  { rewrite set_run.
    destruct (stringify (this_serializer this) value) as [text|error]; [|reflexivity].
    destruct (localStorage.setItem h (getKey this key1) text) as [h'|error] eqn:Hw;
      [|reflexivity].
    simpl. eapply localStorage.getItem_setItem_ne; [exact Hw | exact Hk]. }
  assert (localStorage.getItem (snd (remove this key1 h)) (getKey this key2)
          = localStorage.getItem h (getKey this key2)) as Hrem
    by (apply localStorage.getItem_removeItem_ne; exact Hk).
  rewrite !get_run, !has_run. cbn [fst snd]. rewrite Hset, Hrem.
  repeat split;
    destruct (localStorage.getItem h (getKey this key2)) as [text|]; try reflexivity;
    destruct (parse (this_serializer this) text); reflexivity.
Qed.

(** X3.  Last write wins: after two completed writes to the same key,
    [get] returns the second value (when the serializer round-trips it),
    whatever the first one was. *)
Theorem set_set_get this key value1 value2 text2 defaultValue h h1 h2 :
  stringify (this_serializer this) value2 = Normal text2 ->
  parse (this_serializer this) text2 = Normal value2 ->
  set this key value1 h = (Normal tt, h1) ->
  set this key value2 h1 = (Normal tt, h2) ->
  (set this key value1 ;; set this key value2 ;; get this key defaultValue) h
  = (Normal (Some value2), h2).
Proof.
  intros Hs Hp Hset1 Hset2.
  unfold bind at 1. rewrite Hset1. unfold bind at 1. rewrite Hset2.
  apply set_returns in Hset2. destruct Hset2 as [text [Hs' Hw]].
  rewrite Hs in Hs'. injection Hs' as <-.
  rewrite get_run, (localStorage.getItem_setItem_eq _ _ _ Hw), Hp. reflexivity.
Qed.

(** X4.  After [remove(key)], [get(key, d)] falls back to [d] without
    consulting the serializer, whatever was stored before. *)
Theorem remove_then_get this key defaultValue h :
  (remove this key ;; get this key defaultValue) h
  = (Normal defaultValue, localStorage.removeItem h (getKey this key)).
Proof.
  unfold bind, remove, removeItemM. rewrite get_run.
  now rewrite localStorage.getItem_removeItem_eq.
Qed.

(** X5.  What a completed [set] leaves: the host store holds the
    serializer's text, unchanged, under the namespaced key, and a following
    [get] is [parse] applied to that text: the decoded value when it returns
    (round trip or not), the wrapped read error when it throws. *)
Theorem set_then_get_decodes this key value defaultValue h h' :
  set this key value h = (Normal tt, h') ->
  exists text,
    stringify (this_serializer this) value = Normal text /\
    localStorage.getItem h' (getKey this key) = Some text /\
    get this key defaultValue h' =
    match parse (this_serializer this) text with
    | Normal v => (Normal (Some v), h')
    | Throw cause => (Throw (Error ("Failed to get item: " ++ describe cause)), h')
    end.
Proof.
  intros Hset. apply set_returns in Hset. destruct Hset as [text [Hs Hw]].
  exists text. pose proof (localStorage.getItem_setItem_eq _ _ _ Hw) as Hstored.
  repeat split; try assumption.
  rewrite get_run, Hstored. reflexivity.
Qed.

(** X6.  Removing a key that is not there changes nothing a client can
    observe: every host key keeps its value. *)
Theorem remove_absent_noop this key h k :
  has this key h = (Normal false, h) ->
  localStorage.getItem (snd (remove this key h)) k = localStorage.getItem h k.
Proof.
  rewrite has_run. intros Hhas. unfold remove, removeItemM. simpl.
  destruct (string_dec k (getKey this key)) as [->|Hne].
  - rewrite localStorage.getItem_removeItem_eq.
    destruct (localStorage.getItem h (getKey this key)); [discriminate | reflexivity].
  - now apply localStorage.getItem_removeItem_ne.
Qed.

End SeveralKeys.

Lemma set_remove_frame_witness :
  localStorage.getItem (snd (set bare "app:key1" JNull two_tenants)) "user:key1"
  = localStorage.getItem two_tenants "user:key1" /\
  localStorage.getItem (snd (remove bare "app:key1" two_tenants)) "user:key1"
  = localStorage.getItem two_tenants "user:key1".
Proof.
  apply (set_remove_frame bare "app:key1" JNull two_tenants "user:key1"). discriminate.
Defined.

Lemma distinct_keys_independent_witness :
  fst (get app "key1" None (snd (set app "key2" JNull two_tenants)))
  = fst (get app "key1" None two_tenants) /\
  fst (has app "key1" (snd (set app "key2" JNull two_tenants)))
  = fst (has app "key1" two_tenants) /\
  fst (get app "key1" None (snd (remove app "key2" two_tenants)))
  = fst (get app "key1" None two_tenants) /\
  fst (has app "key1" (snd (remove app "key2" two_tenants)))
  = fst (has app "key1" two_tenants).
Proof.
  apply (distinct_keys_independent app "key2" "key1" JNull None two_tenants).
  discriminate.
Defined.

Lemma set_set_get_witness :
  (set app "key1" (JBool false) ;; set app "key1" JNull ;; get app "key1" None)
    two_tenants
  = (Normal (Some JNull),
     {| Mem.entries := [("app:key1", "null"); ("user:key1", "false")];
        Mem.quota := 64 |}).
Proof.
  apply (set_set_get app "key1" (JBool false) JNull "null" None two_tenants
           {| Mem.entries := [("app:key1", "false"); ("user:key1", "false")];
              Mem.quota := 64 |}); reflexivity.
Defined.

Lemma remove_then_get_witness :
  (remove app "key1" ;; get app "key1" (Some JNull)) two_tenants
  = (Normal (Some JNull), localStorage.removeItem two_tenants (getKey app "key1")).
Proof.
  apply (remove_then_get app "key1" (Some JNull) two_tenants).
Defined.

Lemma set_then_get_decodes_witness :
  exists text,
    stringify (this_serializer encoded) (JBool true) = Normal text /\
    localStorage.getItem
      {| Mem.entries := [("flag", "#true")]; Mem.quota := 64 |}
      (getKey encoded "flag") = Some text /\
    get encoded "flag" None {| Mem.entries := [("flag", "#true")]; Mem.quota := 64 |} =
    match parse (this_serializer encoded) text with
    | Normal v => (Normal (Some v), {| Mem.entries := [("flag", "#true")]; Mem.quota := 64 |})
    | Throw cause =>
        (Throw (Error ("Failed to get item: " ++ describe cause)),
         {| Mem.entries := [("flag", "#true")]; Mem.quota := 64 |})
    end.
Proof.
  apply (set_then_get_decodes encoded "flag" (JBool true) None empty_store).
  reflexivity.
Defined.

Lemma remove_absent_noop_witness :
  localStorage.getItem (snd (remove app "nonexistent" two_tenants)) "app:key1"
  = localStorage.getItem two_tenants "app:key1".
Proof.
  apply (remove_absent_noop app "nonexistent" two_tenants "app:key1"). reflexivity.
Defined.

(** ** Reading, once more *)

Section MoreReading.

Context {V : Type} {H : Type} `{HS : localStorage.Storage H}.
Implicit Types (this : LocalStorage V) (h : H).

(** X7.  [get(key, d)] raises exactly when the namespaced key holds a text
    on which the serializer's [parse] throws; what it raises is a plain
    [Error] whose message is ["Failed to get item: "] followed by the
    description of the parse failure.  An absent key never raises. *)
Theorem get_raises_iff this key defaultValue h error :
  fst (get this key defaultValue h) = Throw error <->
  exists text cause,
    localStorage.getItem h (getKey this key) = Some text /\
    parse (this_serializer this) text = Throw cause /\
    error = Error ("Failed to get item: " ++ describe cause).
Proof.
  rewrite get_run. split.
  - destruct (localStorage.getItem h (getKey this key)) as [text|]; [|discriminate].
    destruct (parse (this_serializer this) text) as [v|cause] eqn:Hp; [discriminate|].
    simpl. intros [= <-]. exists text, cause. repeat split. exact Hp.
  - intros [text [cause [Hstored [Hp ->]]]]. now rewrite Hstored, Hp.
Qed.

(** X8.  How [has] and [get] agree.  When [get] raises, [has] is still
    true: a stored text that does not decode counts as present.  When [has]
    is false, [get] returns the default.  When [has] is true, the default
    plays no part in what [get] does, even if the decoded value is null. *)
Theorem has_and_get this key h :
  (forall defaultValue error,
     fst (get this key defaultValue h) = Throw error ->
     has this key h = (Normal true, h)) /\
  (has this key h = (Normal false, h) ->
   forall defaultValue, get this key defaultValue h = (Normal defaultValue, h)) /\
  (has this key h = (Normal true, h) ->
   forall d1 d2, get this key d1 h = get this key d2 h).
Proof.
  rewrite has_run. repeat split.
  - intros defaultValue error. rewrite get_run.
    destruct (localStorage.getItem h (getKey this key)); [reflexivity | discriminate].
  - intros Hhas defaultValue. rewrite get_run.
    destruct (localStorage.getItem h (getKey this key)); [discriminate | reflexivity].
  - intros Hhas d1 d2. rewrite !get_run.
    destruct (localStorage.getItem h (getKey this key)); [reflexivity | discriminate].
Qed.

(** X9.  A facade created with no prefix, or with the empty prefix, uses
    the bare key; so under the literal key [p:key] it reads the very entry
    that a facade with prefix [p] and the same serializer reads under
    [key]. *)
Theorem unprefixed_sees_prefixed (JSON : Serializer V) options p key defaultValue h :
  prefix options = None \/ prefix options = Some "" ->
  p <> "" ->
  let bare := createStorage JSON options in
  let scoped := createStorage JSON {| prefix := Some p; serializer := serializer options |} in
  (forall k, getKey bare k = k) /\
  get bare (p ++ ":" ++ key) defaultValue h = get scoped key defaultValue h /\
  has bare (p ++ ":" ++ key) h = has scoped key h.
Proof.
  intros Hbare Hp bare scoped.
  assert (forall k, getKey bare k = k) as Hk.
  { intros k. unfold bare, createStorage, new_LocalStorage, getKey. simpl.
    destruct Hbare as [-> | ->]; reflexivity. }
  assert (getKey scoped key = p ++ ":" ++ key) as Hs.
  { apply truthy_nonempty in Hp.
    unfold scoped, createStorage, new_LocalStorage, getKey. simpl.
    rewrite Hp. simpl. now rewrite Hp. }
  split; [exact Hk|].
  rewrite !get_run, !has_run, Hk, Hs. split; reflexivity.
Qed.

End MoreReading.

Lemma unprefixed_sees_prefixed_witness :
  let bare := createStorage miniJSON {| prefix := Some ""; serializer := None |} in
  let scoped := createStorage miniJSON {| prefix := Some "app"; serializer := None |} in
  (forall k, getKey bare k = k) /\
  get bare ("app" ++ ":" ++ "key1") None two_tenants = get scoped "key1" None two_tenants /\
  has bare ("app" ++ ":" ++ "key1") two_tenants = has scoped "key1" two_tenants.
Proof.
  apply (unprefixed_sees_prefixed miniJSON {| prefix := Some ""; serializer := None |}
           "app" "key1" None two_tenants); [right; reflexivity | discriminate].
Defined.

(** ** Clearing, once more *)

Section MoreClearing.

Context {V : Type} {H : Type} `{HS : localStorage.Storage H}
        {HL : localStorage.Lawful H}.
Implicit Types (this : LocalStorage V) (h : H).

(** What [clear] leaves under the keys of the facade that cleared. *)
Lemma clear_own_key this clearAll key h :
  localStorage.getItem (snd (clear this clearAll h)) (getKey this key) = None.
Proof.
  unfold clear.
  destruct (match clearAll with Some b => b | None => false end).
  - apply localStorage.getItem_clear.
  - destruct (truthy (this_prefix this)) eqn:Hp.
    + apply truthy_nonempty in Hp.
      change ((n <- lengthM ;; clear_loop this n) h)
        with (clear_loop this (localStorage.length h) h).
      destruct (clear_loop_from_length this h) as [h' [Hrun Hh']].
      rewrite Hrun. simpl. rewrite Hh'.
      now rewrite getKey_startsWith.
    + apply localStorage.getItem_clear.
Qed.

(** What a scoped [clear] leaves under any host key. *)
Lemma clear_scoped_getItem this clearAll h k :
  this_prefix this <> "" ->
  clearAll = None \/ clearAll = Some false ->
  localStorage.getItem (snd (clear this clearAll h)) k =
  if startsWith k (this_prefix this ++ ":") then None
  else localStorage.getItem h k.
Proof.
  intros Hp Harg. apply truthy_nonempty in Hp.
  assert (clear this clearAll h = clear_loop this (localStorage.length h) h) as ->.
  { unfold clear. destruct Harg as [-> | ->]; rewrite Hp; reflexivity. }
  destruct (clear_loop_from_length this h) as [h' [Hrun Hh']].
  rewrite Hrun. apply Hh'.
Qed.

(** X10.  After [clear], with any argument and on any facade, no key of
    that facade is left: [has(key)] is false and [get(key, d)] returns
    [d]. *)
Theorem clear_then_has_get this clearAll key defaultValue h :
  has this key (snd (clear this clearAll h))
  = (Normal false, snd (clear this clearAll h)) /\
  get this key defaultValue (snd (clear this clearAll h))
  = (Normal defaultValue, snd (clear this clearAll h)).
Proof.
  rewrite has_run, get_run, clear_own_key. split; reflexivity.
Qed.

(** X11.  Namespaces are texts, not facades: when the prefix of a second
    facade is [P:q], with [P] the non-empty prefix of the first, the second
    facade's key [key] is the first one's key [q:key], and any [clear] on the
    first facade, scoped or not, removes every entry of the second. *)
Theorem nested_prefix_shared this1 this2 q :
  this_prefix this1 <> "" ->
  this_prefix this2 = this_prefix this1 ++ ":" ++ q ->
  (forall key, getKey this2 key = getKey this1 (q ++ ":" ++ key)) /\
  (forall key clearAll h,
     has this2 key (snd (clear this1 clearAll h))
     = (Normal false, snd (clear this1 clearAll h))).
Proof.
  intros Hp1 Hp2.
  assert (forall key, getKey this2 key = getKey this1 (q ++ ":" ++ key)) as Hkeys.
  { intros key. rewrite (getKey_prefixed this1) by assumption.
    unfold getKey. rewrite Hp2, truthy_append_colon.
    rewrite append_assoc. reflexivity. }
  split; [exact Hkeys|].
  intros key clearAll h. rewrite has_run, Hkeys, clear_own_key. reflexivity.
Qed.

(** X12.  Scoped clear and other tenants: for two facades with distinct
    non-empty prefixes, neither containing a colon, [clear()] or
    [clear(false)] on the first leaves what [get] and [has] answer on the
    second as it was, for every key. *)
Theorem clear_scoped_isolated this1 this2 clearAll key defaultValue h :
  this_prefix this1 <> "" ->
  this_prefix this2 <> "" ->
  this_prefix this1 <> this_prefix this2 ->
  includes (this_prefix this1) ":" = false ->
  includes (this_prefix this2) ":" = false ->
  clearAll = None \/ clearAll = Some false ->
  fst (get this2 key defaultValue (snd (clear this1 clearAll h)))
  = fst (get this2 key defaultValue h) /\
  fst (has this2 key (snd (clear this1 clearAll h))) = fst (has this2 key h).
Proof.
  intros Hp1 Hp2 Hne Hc1 Hc2 Harg.
  assert (localStorage.getItem (snd (clear this1 clearAll h)) (getKey this2 key)
          = localStorage.getItem h (getKey this2 key)) as Hkept.
  { rewrite clear_scoped_getItem by assumption.
    destruct (startsWith (getKey this2 key) (this_prefix this1 ++ ":")) eqn:Hs;
      [|reflexivity].
    exfalso. apply Hne. rewrite getKey_prefixed in Hs by assumption.
    exact (startsWith_colon_free _ _ _ Hc1 Hc2 Hs). }
  rewrite !get_run, !has_run. cbn [fst snd]. rewrite Hkept. split; [|reflexivity].
  destruct (localStorage.getItem h (getKey this2 key)) as [text|]; [|reflexivity].
  destruct (parse (this_serializer this2) text); reflexivity.
Qed.

(** X13.  [clear] is idempotent on what the host store holds: a second
    [clear] with the same argument changes no entry. *)
Theorem clear_idempotent this clearAll h k :
  localStorage.getItem (snd (clear this clearAll (snd (clear this clearAll h)))) k
  = localStorage.getItem (snd (clear this clearAll h)) k.
Proof.
  destruct (truthy (this_prefix this)) eqn:Hp.
  - destruct clearAll as [[|]|].
    + unfold clear, clearM. simpl. now rewrite !localStorage.getItem_clear.
    + apply truthy_nonempty in Hp.
      rewrite !clear_scoped_getItem by (try assumption; right; reflexivity).
      destruct (startsWith k (this_prefix this ++ ":")); reflexivity.
    + apply truthy_nonempty in Hp.
      rewrite !clear_scoped_getItem by (try assumption; left; reflexivity).
      destruct (startsWith k (this_prefix this ++ ":")); reflexivity.
  - unfold clear. rewrite Hp.
    destruct (match clearAll with Some b => b | None => false end);
      unfold clearM; simpl; now rewrite !localStorage.getItem_clear.
Qed.

End MoreClearing.

Lemma clear_then_has_get_witness :
  has app "key1" (snd (clear app None two_tenants))
  = (Normal false, snd (clear app None two_tenants)) /\
  get app "key1" (Some JNull) (snd (clear app None two_tenants))
  = (Normal (Some JNull), snd (clear app None two_tenants)).
Proof.
  apply (clear_then_has_get app None "key1" (Some JNull) two_tenants).
Defined.

Lemma nested_prefix_shared_witness :
  (forall key, getKey app_cache key = getKey app ("cache" ++ ":" ++ key)) /\
  (forall key clearAll (h : Mem.t),
     has app_cache key (snd (clear app clearAll h))
     = (Normal false, snd (clear app clearAll h))).
Proof.
  apply (nested_prefix_shared app app_cache "cache"); [discriminate | reflexivity].
Defined.

Lemma clear_scoped_isolated_witness :
  fst (get user "key1" None (snd (clear app None two_tenants)))
  = fst (get user "key1" None two_tenants) /\
  fst (has user "key1" (snd (clear app None two_tenants)))
  = fst (has user "key1" two_tenants).
Proof.
  apply (clear_scoped_isolated app user None "key1" None two_tenants);
    try discriminate; try reflexivity.
  left; reflexivity.
Defined.

Lemma clear_idempotent_witness :
  localStorage.getItem (snd (clear app None (snd (clear app None two_tenants)))) "user:key1"
  = localStorage.getItem (snd (clear app None two_tenants)) "user:key1".
Proof.
  apply (clear_idempotent app None two_tenants "user:key1").
Defined.
